(** * Ore UI Customizer plugin environment: the declarations, verified

    The repository is a pair of TypeScript declaration files.  They declare
    the ambient bindings [customizerEnv] and [pluginEnv], the interfaces
    behind them, and a library of type-level utilities that the TypeScript
    checker evaluates: conditional types over tuple types and over string
    literal types.

    The utilities are programs: a conditional type
    [C extends P ? A : B] is a branch, [infer] is a pattern variable and a
    self-reference is a recursive call.  They are embedded below as Rocq
    functions of the same names:

    - a fixed-length tuple type [[T1, ..., Tn]] is the list of its element
      types (the element types themselves are never inspected by the tuple
      utilities, so they are a parameter [A]);
    - a string literal type is a [string]; its characters stand for the
      code units of the literal, which the utilities only split off and put
      back together, never inspect;
    - a numeric literal type [N] that counts elements is a [nat], and
      [X["length"] extends N] is the test [length X =? N];
    - [T extends [infer First, ...infer Rest]] is a match on the list, and
      [T extends [...infer Rest, infer Last]] is [unsnoc].

    The interfaces are embedded as what they are, tables of members. *)

From Equations Require Import Equations.
From Stdlib Require Import String Ascii List Arith Bool Lia Permutation.
Import ListNotations.

Set Implicit Arguments.

(** ** Tuple utilities *)

Module Tuple.

Section Utilities.

Variable A : Type.

(** The pattern [[...infer Rest, infer Last]]: the tuple without its last
    element, and that element; it fails on the empty tuple. *)
Fixpoint unsnoc (T : list A) : option (list A * A) :=
  match T with
  | [] => None
  | x :: T' =>
      match unsnoc T' with
      | None => Some ([], x)
      | Some (Rest, Last) => Some (x :: Rest, Last)
      end
  end.

(** [type TakeFirstNElements<T, N, Result = []> =
      Result["length"] extends N ? Result
      : T extends [infer First, ...infer Rest]
        ? TakeFirstNElements<Rest, N, [...Result, First]>
        : Result] *)
Fixpoint TakeFirstNElements (T : list A) (N : nat) (Result : list A)
  {struct T} : list A :=
  if length Result =? N then Result
  else match T with
       | First :: Rest => TakeFirstNElements Rest N (Result ++ [First])
       | [] => Result
       end.

(** [type RemoveFirstNElements<T, N, Removed = [], Result = []> =
      Removed["length"] extends N ? Result
      : T extends [infer First, ...infer Rest]
        ? RemoveFirstNElements<Rest, N, [...Removed, First], Rest>
        : Result] *)
Fixpoint RemoveFirstNElements (T : list A) (N : nat)
  (Removed Result : list A) {struct T} : list A :=
  if length Removed =? N then Result
  else match T with
       | First :: Rest =>
           RemoveFirstNElements Rest N (Removed ++ [First]) Rest
       | [] => Result
       end.

(** [type RemoveLastNElements<T, N, Removed = [], Result = []> =
      Removed["length"] extends N ? Result
      : T extends [...infer Rest, infer Last]
        ? RemoveFirstNElements<Rest, N, [...Removed, Last], Rest>
        : Result]

    The recursive position names [RemoveFirstNElements], as the source
    does. *)
Definition RemoveLastNElements (T : list A) (N : nat)
  (Removed Result : list A) : list A :=
  if length Removed =? N then Result
  else match unsnoc T with
       | Some (Rest, Last) =>
           RemoveFirstNElements Rest N (Removed ++ [Last]) Rest
       | None => Result
       end.

(** [type SliceTuple<T, start, end> =
      RemoveFirstNElements<T, start> extends infer R extends any[]
      ? TakeFirstNElements<R,
          RemoveFirstNElements<TakeFirstNElements<T, end>, start>["length"]>
      : never]

    The outer test always succeeds on a tuple, so [never] is not
    reached. *)
Definition SliceTuple (T : list A) (start end_ : nat) : list A :=
  let R := RemoveFirstNElements T start [] [] in
  TakeFirstNElements R
    (length (RemoveFirstNElements (TakeFirstNElements T end_ []) start [] []))
    [].

(** The pattern [[...infer Rest, infer Last]] binds a strictly shorter
    [Rest]: the recursion of [TakeLastNElements] ends. *)
Lemma unsnoc_shorter (T Rest : list A) (Last : A) :
  unsnoc T = Some (Rest, Last) -> length Rest < length T.
Proof.
  revert Rest. induction T as [|x T IH]; simpl; intros Rest H; [discriminate|].
  destruct (unsnoc T) as [[R L]|]; inversion H; subst; simpl.
  - specialize (IH _ eq_refl). lia.
  - lia.
Qed.

(** A value together with the equation that says what it is. *)
Definition inspect (B : Type) (x : B) : {y : B | x = y} := exist _ x eq_refl.

(** [type TakeLastNElements<T, N, Result = []> =
      Result["length"] extends N ? Result
      : T extends [...infer Rest, infer Last]
        ? TakeLastNElements<Rest, N, [Last, ...Result]>
        : Result] *)
Equations TakeLastNElements (T : list A) (N : nat) (Result : list A) : list A
  by wf (length T) lt :=
TakeLastNElements T N Result with (length Result =? N) := {
  | true => Result
  | false with inspect (unsnoc T) := {
      | exist _ (Some (Rest, Last)) E =>
          TakeLastNElements Rest N (Last :: Result)
      | exist _ None _ => Result } }.
Next Obligation. eapply unsnoc_shorter; eauto. Qed.

(** [type CreateTupleOfLength<T, N, Result = []> =
      Result["length"] extends N ? Result
      : CreateTupleOfLength<T, N, [T, ...Result]>]

    The false branch recurses without any test on [T], so nothing bounds
    the recursion: the evaluation is given [fuel] steps, and [None] says
    that they did not suffice. *)
Fixpoint CreateTupleOfLength (fuel : nat) (T : A) (N : nat)
  (Result : list A) : option (list A) :=
  match fuel with
  | 0 => None
  | S fuel' =>
      if length Result =? N then Some Result
      else CreateTupleOfLength fuel' T N (T :: Result)
  end.

End Utilities.

Section Filters.

(** The element types and the type [E] they are compared with;
    [extends_ F E] is the test [[F] extends [E]]. *)
Variable A : Type.
Variable extends_ : A -> A -> bool.

(** [type ExcludeFromTuple<T extends readonly any[], E> =
      T extends [infer F, ...infer R]
      ? [F] extends [E] ? ExcludeFromTuple<R, E>
                        : [F, ...ExcludeFromTuple<R, E>]
      : []] *)
Fixpoint ExcludeFromTuple (T : list A) (E : A) : list A :=
  match T with
  | F :: R =>
      if extends_ F E then ExcludeFromTuple R E
      else F :: ExcludeFromTuple R E
  | [] => []
  end.

(** [type IncludeFromTuple<T extends readonly any[], E> =
      T extends [infer F, ...infer R]
      ? [F] extends [E] ? [F, ...IncludeFromTuple<R, E>]
                        : IncludeFromTuple<R, E>
      : []] *)
Fixpoint IncludeFromTuple (T : list A) (E : A) : list A :=
  match T with
  | F :: R =>
      if extends_ F E then F :: IncludeFromTuple R E
      else IncludeFromTuple R E
  | [] => []
  end.

End Filters.

End Tuple.

(** ** String utilities *)

Module Str.

(** [type Split<S extends string> =
      S extends <the empty string literal> ? []
      : S extends `${infer C}${infer R}` ? [C, ...Split<R>] : never]

    On a string literal the template [`${infer C}${infer R}`] binds [C]
    to the first character and [R] to the rest, which is the constructor
    [String C R]; the two patterns cover every literal, so [never] is not
    reached. *)
Fixpoint Split (S : string) : list string :=
  match S with
  | EmptyString => []
  | String C R => String C EmptyString :: Split R
  end.

(** [type Join<T extends string[]> =
      T extends [] ? <the empty string literal>
      : T extends [infer Head, ...infer Tail]
        ? Head extends string
          ? `${Head}${Join<Tail extends string[] ? Tail : []>}`
          : never
        : never]

    [T] is a tuple of string literals, so the tests [Head extends string]
    and [Tail extends string[]] succeed. *)
Fixpoint Join (T : list string) : string :=
  match T with
  | [] => EmptyString
  | Head :: Tail => append Head (Join Tail)
  end.

(** [type CutFirstChars<S, N, SArray = TakeFirstNElements<Split<S>, N>> =
      Join<SArray extends string[] ? SArray : never>] *)
Definition CutFirstChars (S : string) (N : nat) : string :=
  Join (Tuple.TakeFirstNElements (Split S) N []).

End Str.

(** ** Unions of string literals *)

Module Union.

(** A union of string literal types is the list of its members; a union of
    tuple types is the list of the tuples. *)

Section Keys.

Variables K B : Type.

(** [{ [k in U]: F<k> }[U]]: the union, over the members [k] of [U], of
    the property types [F<k>].  [F] is only ever applied to a member. *)
Fixpoint union_over (U : list K) : (forall k, In k U -> list B) -> list B :=
  match U with
  | [] => fun _ => []
  | k :: U' => fun F =>
      F k (or_introl eq_refl) ++
      union_over U' (fun k' H => F k' (or_intror H))
  end.

End Keys.

Arguments union_over {K B} U _.

(** [Exclude<U, k>] for a literal [k]: the members of [U] other than
    [k]. *)
Definition Exclude (U : list string) (k : string) : list string :=
  filter (fun u => negb (String.eqb u k)) U.

Lemma Exclude_shorter (U : list string) (k : string) :
  In k U -> length (Exclude U k) < length U.
Proof.
  unfold Exclude.
  induction U as [|u U IH]; simpl; intros H; [contradiction|].
  destruct (String.eqb_spec u k) as [->|NE]; simpl.
  - pose proof (filter_length_le (fun u => negb (String.eqb u k)) U). lia.
  - destruct H as [H|H]; [contradiction|]. specialize (IH H). lia.
Qed.

(** [type NoRepetition<U extends string, ResultT extends any[] = []> =
      | ResultT
      | { [k in U]: NoRepetition<Exclude<U, k>, [k, ...ResultT]> }[U]] *)
Equations NoRepetition (U : list string) (ResultT : list string)
  : list (list string) by wf (length U) lt :=
NoRepetition U ResultT :=
  ResultT ::
  union_over U
    (fun k (Hk : In k U) => NoRepetition (Exclude U k) (k :: ResultT)).
Next Obligation. apply Exclude_shorter. exact Hk. Qed.

End Union.

(** ** The declared interfaces *)

Module Decl.

Local Open Scope string_scope.

(** Type expressions, as far as the interface declarations use them.  A
    type of another package ([zip.FS], [Promise], [PluginManifestJSON],
    ...) is a reference by name with its type arguments; a type alias of
    this repository is a Rocq definition. *)
#[warning="-register-all"]
Inductive ts_type : Type :=
| TAny
| TString
| TUndefined
| TLit (literal : string)
| TUnion (left right : ts_type)
| TRef (name : string) (args : list ts_type).

(** A member of an interface: a property with its [readonly] modifier, or
    a method with its type parameters (each with its default), its
    parameters and its return type. *)
Inductive member : Type :=
| Property (readonly : bool) (type : ts_type)
| Method (type_params : list (string * ts_type))
         (params : list (string * ts_type)) (returns : ts_type).

Definition interface : Type := list (string * member).

(** [type OreUICustomizerType = "Website" | "App" | "CLI"] *)
Definition OreUICustomizerType : ts_type :=
  TUnion (TLit "Website") (TUnion (TLit "App") (TLit "CLI")).

(** [ReadonlyDeep<PluginManifestJSON>]: the manifest type belongs to
    another package, so the mapped type stays an application. *)
Definition ReadonlyDeep_PluginManifestJSON : ts_type :=
  TRef "ReadonlyDeep" [TRef "PluginManifestJSON" []].

Definition Promise (t : ts_type) : ts_type := TRef "Promise" [t].

Definition path_param : list (string * ts_type) := [("path", TString)].

(** [interface OreUICustomizerPluginEnv], member by member, in the order
    of the declaration. *)
Definition OreUICustomizerPluginEnv : interface :=
  [ ("fetchFileContents",
      Method [] path_param (Promise (TRef "Uint8Array" [])));
    ("fetchFileStringContents",
      Method [] path_param (Promise TString));
    ("fetchFileAsBlob",
      Method [] path_param (Promise (TRef "Blob" [])));
    ("fetchFileAsWritableStream",
      Method [] path_param
        (Promise (TRef "WritableStream" [TRef "Uint8Array" []])));
    ("findZipEntry",
      Method [] path_param (TUnion (TRef "zip.ZipEntry" []) TUndefined));
    ("findZipFileEntry",
      Method [("ReaderType", TAny); ("WriterType", TAny)] path_param
        (TUnion (TRef "zip.ZipFileEntry"
                   [TRef "ReaderType" []; TRef "WriterType" []])
                TUndefined));
    ("findZipDirectoryEntry",
      Method [] path_param
        (TUnion (TRef "zip.ZipDirectoryEntry" []) TUndefined));
    ("zipFs", Property true (TRef "zip.FS" []));
    ("manifest", Property true ReadonlyDeep_PluginManifestJSON) ].

(** [interface OreUICustomizerEnv] *)
Definition OreUICustomizerEnv : interface :=
  [ ("version", Property true TString);
    ("type", Property true OreUICustomizerType);
    ("settings", Property true (TRef "OreUICustomizerSettings" [])) ].

(** [const pluginEnv: OreUICustomizerPluginEnv] and
    [const customizerEnv: OreUICustomizerEnv]: the declared types of the
    two ambient bindings. *)
Definition pluginEnv : interface := OreUICustomizerPluginEnv.
Definition customizerEnv : interface := OreUICustomizerEnv.

(** The member an access [x.name] resolves to, for [x] of interface type
    [I]; [None] when the interface declares no such member (the checker
    rejects the access). *)
Fixpoint member_of (I : interface) (name : string) : option member :=
  match I with
  | [] => None
  | (n, m) :: I' => if String.eqb n name then Some m else member_of I' name
  end.

(** Whether an assignment [x.name = e] is accepted: the member exists and
    is not [readonly]. *)
Definition writable (I : interface) (name : string) : bool :=
  match member_of I name with
  | Some (Property ro _) => negb ro
  | Some (Method _ _ _) => true
  | None => false
  end.

(** The string literals a type is the union of, left to right; a type
    that is not such a union has none. *)
Fixpoint literals (t : ts_type) : list string :=
  match t with
  | TLit s => [s]
  | TUnion a b => (literals a ++ literals b)%list
  | _ => []
  end.

(** Whether the string value [v] is assignable to [t]: to [string] and
    [any] always, to a literal type when it is that literal, to a union
    when it is assignable to a side.  No string is [undefined]; the
    named types this repository refers to are classes and object types of
    other packages, which hold no string. *)
Fixpoint string_inhabits (v : string) (t : ts_type) : bool :=
  match t with
  | TAny | TString => true
  | TUndefined => false
  | TLit s => String.eqb v s
  | TUnion a b => string_inhabits v a || string_inhabits v b
  | TRef _ _ => false
  end.

End Decl.


(** ** Mapped-type utilities *)

Module Mapped.

Local Open Scope string_scope.

(** A property of an object type: its key, its [readonly] and [?]
    modifiers and its type. *)
Record property (T : Type) : Type := MkProperty {
  key : string;
  readonly : bool;
  optional : bool;
  type : T
}.

(** The types a JSON-like document has: primitives, arrays (with the
    [readonly] modifier of the array type) and object types. *)
#[warning="-register-all"]
Inductive obj_type : Type :=
| Prim (name : string)
| Arr (readonly_array : bool) (elem : obj_type)
| Obj (props : list (property obj_type)).

(** The mapped types below are homomorphic ([P in keyof T]): applied to a
    primitive they are the primitive; applied to an array type they map the
    element type and the array's [readonly] modifier; applied to an object
    type they map every property, keeping its key and its [?] modifier. *)

(** [type Mutable<T> = { -readonly [P in keyof T]: T[P] }] *)
Definition Mutable (T : obj_type) : obj_type :=
  match T with
  | Prim n => Prim n
  | Arr _ e => Arr false e
  | Obj ps =>
      Obj (map (fun p => MkProperty (key p) false (optional p) (type p)) ps)
  end.

(** [type ReadonlyDeep<T> = { readonly [P in keyof T]: ReadonlyDeep<T[P]> }] *)
Fixpoint ReadonlyDeep (T : obj_type) : obj_type :=
  match T with
  | Prim n => Prim n
  | Arr _ e => Arr true (ReadonlyDeep e)
  | Obj ps =>
      Obj (map (fun p => MkProperty (key p) true (optional p)
                           (ReadonlyDeep (type p))) ps)
  end.

(** [type MutableDeep<T> = { -readonly [P in keyof T]: MutableDeep<T[P]> }] *)
Fixpoint MutableDeep (T : obj_type) : obj_type :=
  match T with
  | Prim n => Prim n
  | Arr _ e => Arr false (MutableDeep e)
  | Obj ps =>
      Obj (map (fun p => MkProperty (key p) false (optional p)
                           (MutableDeep (type p))) ps)
  end.

(** One step into a value of a type: a property by its key, or an element
    of an array. *)
Inductive step : Type :=
| Field (k : string)
| Element.

Fixpoint property_of (ps : list (property obj_type)) (k : string)
  : option (property obj_type) :=
  match ps with
  | [] => None
  | p :: ps' => if String.eqb (key p) k then Some p else property_of ps' k
  end.

(** The type and the [readonly] modifier found one step into [T]. *)
Definition enter (T : obj_type) (s : step) : option (bool * obj_type) :=
  match T, s with
  | Obj ps, Field k =>
      match property_of ps k with
      | Some p => Some (readonly p, type p)
      | None => None
      end
  | Arr r e, Element => Some (r, e)
  | _, _ => None
  end.

(** Whether the checker accepts the assignment [x.s1. ... .sn = e] for [x]
    of type [T]: the path resolves and its last step is not [readonly]
    (the modifiers of the steps before the last do not matter). *)
Fixpoint assignable (T : obj_type) (path : list step) : bool :=
  match path with
  | [] => false
  | s :: path' =>
      match enter T s with
      | None => false
      | Some (r, T') =>
          match path' with
          | [] => negb r
          | _ :: _ => assignable T' path'
          end
      end
  end.

(** Whether the path resolves in [T] at all. *)
Fixpoint resolves (T : obj_type) (path : list step) : bool :=
  match path with
  | [] => true
  | s :: path' =>
      match enter T s with
      | None => false
      | Some (_, T') => resolves T' path'
      end
  end.

End Mapped.


(** * Properties *)

(** ** Tuple utilities: what the conditional types compute *)

Section TupleFacts.

Variable A : Type.
Implicit Types (T Rest Removed Result : list A) (N : nat).

Lemma unsnoc_snoc T (x : A) : Tuple.unsnoc (T ++ [x]) = Some (T, x).
Proof.
  induction T as [|y T IH]; simpl.
  - reflexivity.
  - rewrite IH. reflexivity.
Qed.

Lemma unsnoc_nil_iff T : Tuple.unsnoc T = None <-> T = [].
Proof.
  split.
  - destruct T as [|x T]; simpl; [reflexivity|].
    destruct (Tuple.unsnoc T) as [[Rest Last]|]; discriminate.
  - intros ->. reflexivity.
Qed.

Lemma unsnoc_Some T Rest (Last : A) :
  Tuple.unsnoc T = Some (Rest, Last) ->
  T = Rest ++ [Last] /\ Rest = removelast T.
Proof.
  revert Rest. induction T as [|x T IH]; simpl; intros Rest H.
  - discriminate.
  - destruct (Tuple.unsnoc T) as [[Rest' Last']|] eqn:E.
    + injection H as <- <-.
      destruct (IH _ eq_refl) as [HT HR].
      split.
      * simpl. f_equal. exact HT.
      * destruct T as [|y T]; [discriminate E|]. f_equal. exact HR.
    + injection H as <- <-.
      apply unsnoc_nil_iff in E. subst T. split; reflexivity.
Qed.

(** One unfolding of the conditional type. *)
Lemma RemoveFirstNElements_eq T N Removed Result :
  Tuple.RemoveFirstNElements T N Removed Result =
  if length Removed =? N then Result
  else match T with
       | First :: Rest =>
           Tuple.RemoveFirstNElements Rest N (Removed ++ [First]) Rest
       | [] => Result
       end.
Proof. destruct T; reflexivity. Qed.

Lemma TakeFirstNElements_eq T N Result :
  Tuple.TakeFirstNElements T N Result =
  if length Result =? N then Result
  else match T with
       | First :: Rest => Tuple.TakeFirstNElements Rest N (Result ++ [First])
       | [] => Result
       end.
Proof. destruct T; reflexivity. Qed.

Lemma RemoveFirstNElements_zero T :
  Tuple.RemoveFirstNElements T 0 [] [] = [].
Proof. rewrite RemoveFirstNElements_eq. reflexivity. Qed.

Lemma RemoveFirstNElements_pending (x : A) T N Removed Result :
  length Removed < N ->
  Tuple.RemoveFirstNElements (x :: T) N Removed Result =
  skipn (N - length Removed) (x :: T).
Proof.
  revert x Removed Result.
  induction T as [|y T IH]; intros x Removed Result Hlt.
  - rewrite RemoveFirstNElements_eq.
    destruct (Nat.eqb_spec (length Removed) N) as [E|_]; [lia|].
    rewrite RemoveFirstNElements_eq.
    destruct (length (Removed ++ [x]) =? N);
      destruct (N - length Removed) as [|k] eqn:E; try lia;
      simpl; now rewrite ?skipn_nil.
  - rewrite RemoveFirstNElements_eq.
    destruct (Nat.eqb_spec (length Removed) N) as [E|_]; [lia|].
    assert (HL : length (Removed ++ [x]) = S (length Removed))
      by (rewrite length_app; simpl; lia).
    destruct (Nat.eq_dec (S (length Removed)) N) as [E|NE].
    + rewrite RemoveFirstNElements_eq, HL.
      destruct (Nat.eqb_spec (S (length Removed)) N) as [_|C]; [|contradiction].
      replace (N - length Removed) with 1 by lia. reflexivity.
    + rewrite IH by lia. rewrite HL.
      replace (N - length Removed) with (S (N - S (length Removed))) by lia.
      reflexivity.
Qed.

Lemma RemoveFirstNElements_skipn T N :
  1 <= N -> Tuple.RemoveFirstNElements T N [] [] = skipn N T.
Proof.
  intros HN. destruct T as [|x T].
  - rewrite RemoveFirstNElements_eq. rewrite skipn_nil.
    destruct (length (@nil A) =? N); reflexivity.
  - rewrite RemoveFirstNElements_pending by (simpl; lia).
    simpl length. now rewrite Nat.sub_0_r.
Qed.

Lemma RemoveLastNElements_skipn_removelast T N :
  1 <= N ->
  Tuple.RemoveLastNElements T N [] [] = skipn (N - 1) (removelast T).
Proof.
  intros HN. unfold Tuple.RemoveLastNElements.
  destruct (Nat.eqb_spec (length (@nil A)) N) as [E|_]; [simpl in E; lia|].
  destruct (Tuple.unsnoc T) as [[Rest Last]|] eqn:E.
  - apply unsnoc_Some in E. destruct E as [_ <-].
    simpl app.
    destruct Rest as [|x Rest].
    + rewrite RemoveFirstNElements_eq, skipn_nil.
      destruct (length [Last] =? N); reflexivity.
    + destruct (Nat.eq_dec N 1) as [->|NE].
      * reflexivity.
      * rewrite RemoveFirstNElements_pending by (simpl; lia). reflexivity.
  - apply unsnoc_nil_iff in E. subst T. simpl. now rewrite skipn_nil.
Qed.

Lemma TakeFirstNElements_pending T N Result :
  length Result <= N ->
  Tuple.TakeFirstNElements T N Result = Result ++ firstn (N - length Result) T.
Proof.
  revert Result. induction T as [|x T IH]; intros Result Hle.
  - rewrite TakeFirstNElements_eq, firstn_nil, app_nil_r.
    destruct (length Result =? N); reflexivity.
  - rewrite TakeFirstNElements_eq.
    destruct (Nat.eqb_spec (length Result) N) as [E|NE].
    + rewrite E, Nat.sub_diag. simpl. now rewrite app_nil_r.
    + assert (HL : length (Result ++ [x]) = S (length Result))
        by (rewrite length_app; simpl; lia).
      rewrite IH by lia. rewrite HL.
      replace (N - length Result) with (S (N - S (length Result))) by lia.
      simpl. rewrite <- app_assoc. reflexivity.
Qed.

Lemma TakeFirstNElements_firstn T N :
  Tuple.TakeFirstNElements T N [] = firstn N T.
Proof.
  rewrite TakeFirstNElements_pending by (simpl; lia).
  simpl. now rewrite Nat.sub_0_r.
Qed.

End TupleFacts.

(** C9. Removing zero elements is not the identity: for every tuple [T],
    [RemoveFirstNElements<T, 0>] is the empty tuple, because the test
    [Removed["length"] extends 0] succeeds at once and the default [Result]
    is returned; on a tuple with at least one element the answer therefore
    differs from [T]. *)
Theorem RemoveFirstNElements_zero_is_empty (A : Type) (T : list A) :
  Tuple.RemoveFirstNElements T 0 [] [] = [] /\
  (forall x : A, Tuple.RemoveFirstNElements (x :: T) 0 [] [] <> x :: T).
Proof.
  split.
  - apply RemoveFirstNElements_zero.
  - intros x. rewrite RemoveFirstNElements_zero. discriminate.
Qed.

(** C10, at the failing input.  [RemoveLastNElements<[1, 2, 3, 4], 2>] takes
    the last element off and then hands the rest to [RemoveFirstNElements],
    which takes the next one off the front: the answer is [[2, 3]], while
    the tuple without its last two elements is [[1, 2]]. *)
Theorem RemoveLastNElements_two_of_four :
  Tuple.RemoveLastNElements [1; 2; 3; 4] 2 [] [] = [2; 3] /\
  firstn (length [1; 2; 3; 4] - 2) [1; 2; 3; 4] = [1; 2].
Proof. split; reflexivity. Qed.

(** X1. What [RemoveLastNElements<T, N>] computes for [N >= 1]: the last
    element is removed, and the other [N - 1] are removed from the front. *)
Theorem RemoveLastNElements_computes (A : Type) (T : list A) (N : nat) :
  1 <= N ->
  Tuple.RemoveLastNElements T N [] [] = skipn (N - 1) (removelast T).
Proof. apply RemoveLastNElements_skipn_removelast. Qed.

Lemma RemoveLastNElements_computes_witness :
  1 <= 3 /\
  Tuple.RemoveLastNElements [10; 20; 30; 40; 50] 3 [] [] =
  skipn (3 - 1) (removelast [10; 20; 30; 40; 50]).
Proof.
  split; [lia | apply (@RemoveLastNElements_computes nat [10; 20; 30; 40; 50] 3); lia].
Defined.

(** X2. [RemoveLastNElements<T, 1>] is [T] without its last element. *)
Theorem RemoveLastNElements_one (A : Type) (T : list A) :
  Tuple.RemoveLastNElements T 1 [] [] = removelast T.
Proof.
  rewrite RemoveLastNElements_skipn_removelast by lia. reflexivity.
Qed.

(** X3. For [N >= 1], [RemoveFirstNElements<T, N>] is [T] without its first [N]
    elements (the empty tuple when [T] has fewer). *)
Theorem RemoveFirstNElements_drops (A : Type) (T : list A) (N : nat) :
  1 <= N -> Tuple.RemoveFirstNElements T N [] [] = skipn N T.
Proof. apply RemoveFirstNElements_skipn. Qed.

Lemma RemoveFirstNElements_drops_witness :
  1 <= 2 /\ Tuple.RemoveFirstNElements [1; 2; 3; 4] 2 [] [] = skipn 2 [1; 2; 3; 4].
Proof.
  split; [lia | apply (@RemoveFirstNElements_drops nat [1; 2; 3; 4] 2); lia].
Defined.

(** X4. [TakeFirstNElements<T, N>] is the first [N] elements of [T] (all
    of [T] when it has fewer). *)
Theorem TakeFirstNElements_takes (A : Type) (T : list A) (N : nat) :
  Tuple.TakeFirstNElements T N [] = firstn N T /\
  length (Tuple.TakeFirstNElements T N []) = Nat.min N (length T).
Proof.
  rewrite TakeFirstNElements_firstn. split; [reflexivity | apply length_firstn].
Qed.

(** X5. [SliceTuple<T, start, end>] with [start >= 1] is the elements of [T]
    from index [start] up to, not including, index [end]. *)
Theorem SliceTuple_slices (A : Type) (T : list A) (start end_ : nat) :
  1 <= start ->
  Tuple.SliceTuple T start end_ = skipn start (firstn end_ T).
Proof.
  intros Hs. unfold Tuple.SliceTuple.
  rewrite !RemoveFirstNElements_skipn by exact Hs.
  rewrite !TakeFirstNElements_firstn.
  rewrite length_skipn, length_firstn.
  rewrite skipn_firstn_comm.
  destruct (Nat.le_ge_cases end_ (length T)) as [Hle|Hge].
  - now rewrite Nat.min_l by exact Hle.
  - rewrite Nat.min_r by exact Hge.
    rewrite firstn_all2 by (rewrite length_skipn; lia).
    rewrite firstn_all2 by (rewrite length_skipn; lia).
    reflexivity.
Qed.

Lemma SliceTuple_slices_witness :
  1 <= 1 /\ Tuple.SliceTuple [1; 2; 3; 4; 5] 1 3 = skipn 1 (firstn 3 [1; 2; 3; 4; 5]).
Proof.
  split; [lia | apply (@SliceTuple_slices nat [1; 2; 3; 4; 5] 1 3); lia].
Defined.

(** X6. [SliceTuple<T, 0, end>] is the empty tuple, whatever [T] and [end]. *)
Theorem SliceTuple_from_zero (A : Type) (T : list A) (end_ : nat) :
  Tuple.SliceTuple T 0 end_ = [].
Proof.
  unfold Tuple.SliceTuple.
  rewrite RemoveFirstNElements_zero.
  rewrite TakeFirstNElements_eq.
  destruct (length (@nil A) =? _); reflexivity.
Qed.

(** ** String utilities *)

(** C8. [Split] and [Join] form a round trip on every string literal [S]:
    [Split<S>] is the tuple of the one-character strings of [S], in the
    order of [S], and joining that tuple gives [S] back. *)
Theorem Join_Split (S : string) :
  Str.Join (Str.Split S) = S /\
  Str.Split S =
    map (fun C => String C EmptyString) (list_ascii_of_string S).
Proof.
  split.
  - induction S as [|C R IH]; simpl.
    + reflexivity.
    + now rewrite IH.
  - induction S as [|C R IH]; simpl.
    + reflexivity.
    + now rewrite IH.
Qed.

(** X8. [Join] concatenates the elements of a tuple in order: it is the
    concatenation with the empty separator. *)
Theorem Join_concat (T : list string) :
  Str.Join T = String.concat EmptyString T.
Proof.
  induction T as [|Head Tail IH]; simpl.
  - reflexivity.
  - destruct Tail as [|Next Tail].
    + simpl. clear IH. induction Head as [|C R IHR]; simpl; [reflexivity | now rewrite IHR].
    + rewrite IH. reflexivity.
Qed.

(** X7. [CutFirstChars<S, N>] is the first [N] characters of [S] (all of
    [S] when it is shorter). *)
Theorem CutFirstChars_prefix (S : string) (N : nat) :
  Str.CutFirstChars S N = substring 0 N S.
Proof.
  unfold Str.CutFirstChars. rewrite TakeFirstNElements_firstn.
  revert N. induction S as [|C R IH]; intros [|N]; simpl; try reflexivity.
  now rewrite IH.
Qed.

(** ** The declared interfaces *)

Section Interfaces.

Local Open Scope string_scope.

(** C5. [customizerEnv.type] is declared [readonly] with the type
    [OreUICustomizerType], the union of exactly the three string literals
    "Website", "App" and "CLI"; a string value has that type if and only if
    it is one of the three. *)
Theorem customizerEnv_type_closed :
  Decl.member_of Decl.customizerEnv "type" =
    Some (Decl.Property true Decl.OreUICustomizerType) /\
  Decl.literals Decl.OreUICustomizerType = ["Website"; "App"; "CLI"] /\
  NoDup (Decl.literals Decl.OreUICustomizerType) /\
  (forall v : string,
      Decl.string_inhabits v Decl.OreUICustomizerType = true <->
      v = "Website" \/ v = "App" \/ v = "CLI").
Proof.
  split; [reflexivity|]. split; [reflexivity|]. split.
  - simpl. repeat constructor; simpl; intuition discriminate.
  - intros v. simpl. rewrite !orb_true_iff, !String.eqb_eq. tauto.
Qed.

(** C7, as the claim has it: the interface of [pluginEnv] declares no member
    named [archiveRoot]. *)
Lemma pluginEnv_has_no_archiveRoot :
  Decl.member_of Decl.pluginEnv "archiveRoot" = None.
Proof. reflexivity. Qed.

(** C7, amended.  The archive is reached through the property [zipFs]: it is
    declared [readonly], its type is [zip.FS], an assignment to it is
    rejected, and it and [manifest] are the only properties of the
    interface (every other member is a method). *)
Theorem pluginEnv_zipFs_readonly :
  Decl.member_of Decl.pluginEnv "zipFs" =
    Some (Decl.Property true (Decl.TRef "zip.FS" [])) /\
  Decl.writable Decl.pluginEnv "zipFs" = false /\
  map fst
    (filter (fun nm => match snd nm with
                       | Decl.Property _ _ => true
                       | Decl.Method _ _ _ => false
                       end) Decl.pluginEnv) = ["zipFs"; "manifest"].
Proof. repeat split. Qed.

End Interfaces.

(** ** Mapped-type utilities *)

Section MappedFacts.

Import Mapped.

(** Induction on a type, with the hypothesis for every property of an
    object type. *)
Lemma obj_type_induction (P : obj_type -> Prop)
  (HPrim : forall n, P (Prim n))
  (HArr : forall r e, P e -> P (Arr r e))
  (HObj : forall ps, Forall (fun p => P (type p)) ps -> P (Obj ps)) :
  forall T, P T.
Proof.
  fix IH 1. intros [n | r e | ps].
  - apply HPrim.
  - apply HArr, IH.
  - apply HObj. induction ps as [|p ps IHps]; constructor.
    + apply IH.
    + exact IHps.
Qed.

Lemma property_of_map (f : property obj_type -> property obj_type)
  (Hkey : forall p, key (f p) = key p) ps k :
  property_of (map f ps) k = option_map f (property_of ps k).
Proof.
  induction ps as [|p ps IH]; simpl.
  - reflexivity.
  - rewrite Hkey. destruct (String.eqb (key p) k); [reflexivity | exact IH].
Qed.

(** One step into [ReadonlyDeep<T>] finds what the step finds in [T], made
    [readonly] and mapped in turn. *)
Lemma enter_ReadonlyDeep T s :
  enter (ReadonlyDeep T) s =
  option_map (fun rt => (true, ReadonlyDeep (snd rt))) (enter T s).
Proof.
  destruct T as [n | r e | ps]; destruct s as [k|]; simpl; try reflexivity.
  rewrite property_of_map by reflexivity.
  destruct (property_of ps k); reflexivity.
Qed.

Lemma enter_MutableDeep T s :
  enter (MutableDeep T) s =
  option_map (fun rt => (false, MutableDeep (snd rt))) (enter T s).
Proof.
  destruct T as [n | r e | ps]; destruct s as [k|]; simpl; try reflexivity.
  rewrite property_of_map by reflexivity.
  destruct (property_of ps k); reflexivity.
Qed.

(** X9. The manifest is declared [ReadonlyDeep<...>]: whatever the manifest
    type, no assignment to a property or an element at any depth of
    [ReadonlyDeep<T>] is accepted by the checker. *)
Theorem ReadonlyDeep_rejects_every_write (T : obj_type) (path : list step) :
  assignable (ReadonlyDeep T) path = false.
Proof.
  revert T. induction path as [|s path IH]; intros T; simpl.
  - reflexivity.
  - rewrite enter_ReadonlyDeep.
    destruct (enter T s) as [[r T']|]; simpl; [|reflexivity].
    destruct path as [|s' path]; [reflexivity | apply IH].
Qed.

(** X10. [ReadonlyDeep] changes modifiers only: a path resolves in
    [ReadonlyDeep<T>] exactly when it resolves in [T]. *)
Theorem ReadonlyDeep_keeps_shape (T : obj_type) (path : list step) :
  resolves (ReadonlyDeep T) path = resolves T path.
Proof.
  revert T. induction path as [|s path IH]; intros T; simpl.
  - reflexivity.
  - rewrite enter_ReadonlyDeep.
    destruct (enter T s) as [[r T']|]; simpl; [apply IH | reflexivity].
Qed.

(** X11. The readonly contract is a matter of the declared type: [MutableDeep]
    undoes [ReadonlyDeep], so that every path that resolves, and is not
    empty, is assignable again. *)
Theorem MutableDeep_accepts_every_write (T : obj_type) (s : step)
  (path : list step) :
  assignable (MutableDeep (ReadonlyDeep T)) (s :: path) =
  resolves T (s :: path).
Proof.
  revert T s. induction path as [|s' path IH]; intros T s.
  - simpl. rewrite enter_MutableDeep, enter_ReadonlyDeep.
    destruct (enter T s) as [[r T']|]; reflexivity.
  - change (assignable (MutableDeep (ReadonlyDeep T)) (s :: s' :: path))
      with (match enter (MutableDeep (ReadonlyDeep T)) s with
            | None => false
            | Some (_, T') => assignable T' (s' :: path)
            end).
    change (resolves T (s :: s' :: path))
      with (match enter T s with
            | None => false
            | Some (_, T') => resolves T' (s' :: path)
            end).
    rewrite enter_MutableDeep, enter_ReadonlyDeep.
    destruct (enter T s) as [[r T']|]; simpl option_map; cbv beta iota; simpl snd.
    + apply IH.
    + reflexivity.
Qed.

(** X12. [MutableDeep<ReadonlyDeep<T>>] is [MutableDeep<T>], and [ReadonlyDeep]
    applied twice is [ReadonlyDeep]. *)
Theorem MutableDeep_ReadonlyDeep (T : obj_type) :
  MutableDeep (ReadonlyDeep T) = MutableDeep T /\
  ReadonlyDeep (ReadonlyDeep T) = ReadonlyDeep T.
Proof.
  induction T as [n | r e [IHm IHr] | ps IH] using obj_type_induction; simpl.
  - split; reflexivity.
  - now rewrite IHm, IHr.
  - rewrite !map_map. simpl.
    split; f_equal; apply map_ext_Forall;
      (eapply Forall_impl; [|exact IH]); intros p [Hm Hr]; simpl;
      now rewrite ?Hm, ?Hr.
Qed.

(** X13. [Mutable] is shallow: an assignment one step into [Mutable<T>]
    is accepted whenever the step resolves, and an assignment further down
    is accepted exactly when it is in [T]. *)
Theorem Mutable_is_shallow (T : obj_type) (s : step) :
  assignable (Mutable T) [s] = resolves T [s] /\
  (forall s' path,
      assignable (Mutable T) (s :: s' :: path) =
      assignable T (s :: s' :: path)).
Proof.
  assert (E : enter (Mutable T) s =
              option_map (fun rt => (false, snd rt)) (enter T s)).
  { destruct T as [n | r e | ps]; destruct s as [k|]; simpl; try reflexivity.
    rewrite property_of_map by reflexivity.
    destruct (property_of ps k); reflexivity. }
  split.
  - simpl. rewrite E. destruct (enter T s) as [[r T']|]; reflexivity.
  - intros s' path. simpl. rewrite E.
    destruct (enter T s) as [[r T']|]; reflexivity.
Qed.

End MappedFacts.


(** ** More tuple utilities *)

Section MoreTupleFacts.

Variable A : Type.
Implicit Types (T Rest Removed Result : list A) (N : nat).

(** One unfolding of [TakeLastNElements], as the source writes it. *)
Lemma TakeLastNElements_eq T N Result :
  Tuple.TakeLastNElements T N Result =
  if length Result =? N then Result
  else match Tuple.unsnoc T with
       | Some (Rest, Last) => Tuple.TakeLastNElements Rest N (Last :: Result)
       | None => Result
       end.
Proof.
  funelim (Tuple.TakeLastNElements T N Result);
    try match goal with H : (_ =? _) = _ |- _ => rewrite H end;
    try match goal with H : Tuple.unsnoc _ = _ |- _ => rewrite H end;
    reflexivity.
Qed.

Lemma TakeLastNElements_pending T N Result :
  length Result <= N ->
  Tuple.TakeLastNElements T N Result =
  skipn (length T - (N - length Result)) T ++ Result.
Proof.
  revert Result. induction T as [|Last Rest IH] using rev_ind;
    intros Result Hle; rewrite TakeLastNElements_eq.
  - simpl. destruct (length Result =? N); reflexivity.
  - destruct (Nat.eqb_spec (length Result) N) as [E|NE].
    + rewrite E, Nat.sub_diag, Nat.sub_0_r, skipn_all. reflexivity.
    + rewrite unsnoc_snoc, IH by (simpl; lia).
      rewrite length_app. simpl length.
      replace (length Rest + 1 - (N - length Result))
        with (length Rest - (N - S (length Result))) by lia.
      rewrite skipn_app.
      replace (length Rest - (N - S (length Result)) - length Rest) with 0 by lia.
      simpl. rewrite <- app_assoc. reflexivity.
Qed.

Lemma CreateTupleOfLength_enough (x : A) N Result (fuel : nat) :
  length Result <= N -> N - length Result < fuel ->
  Tuple.CreateTupleOfLength fuel x N Result =
  Some (repeat x (N - length Result) ++ Result).
Proof.
  revert Result. induction fuel as [|fuel IH]; intros Result Hle Hf; [lia|].
  simpl. destruct (Nat.eqb_spec (length Result) N) as [E|NE].
  - rewrite E, Nat.sub_diag. reflexivity.
  - rewrite IH by (simpl; lia). simpl length.
    replace (N - length Result) with (S (N - S (length Result))) by lia.
    f_equal. change (x :: Result) with ([x] ++ Result).
    rewrite app_assoc. f_equal.
    simpl. now rewrite repeat_cons.
Qed.

Lemma CreateTupleOfLength_overlong (x : A) N Result (fuel : nat) :
  N < length Result -> Tuple.CreateTupleOfLength fuel x N Result = None.
Proof.
  revert Result. induction fuel as [|fuel IH]; intros Result Hlt; [reflexivity|].
  simpl. destruct (Nat.eqb_spec (length Result) N) as [E|NE]; [lia|].
  apply IH. simpl. lia.
Qed.

End MoreTupleFacts.

(** X14. [TakeLastNElements<T, N>] is the last [N] elements of [T], in
    the order of [T] (all of [T] when it has fewer); its length is the
    smaller of [N] and the length of [T]. *)
Theorem TakeLastNElements_takes (A : Type) (T : list A) (N : nat) :
  Tuple.TakeLastNElements T N [] = skipn (length T - N) T /\
  length (Tuple.TakeLastNElements T N []) = Nat.min N (length T).
Proof.
  rewrite TakeLastNElements_pending by (simpl; lia).
  simpl length. rewrite Nat.sub_0_r, app_nil_r. split; [reflexivity|].
  rewrite length_skipn. lia.
Qed.

(** X15. [TakeLastNElements] mirrors [TakeFirstNElements]: taking the last
    [N] elements of [T] is taking the first [N] of [T] reversed, and
    reversing the answer. *)
Theorem TakeLastNElements_mirror (A : Type) (T : list A) (N : nat) :
  Tuple.TakeLastNElements T N [] =
  rev (Tuple.TakeFirstNElements (rev T) N []).
Proof.
  rewrite TakeLastNElements_pending by (simpl; lia).
  rewrite TakeFirstNElements_firstn.
  simpl length. rewrite Nat.sub_0_r, app_nil_r.
  rewrite firstn_rev, rev_involutive. reflexivity.
Qed.

(** X16. For [N >= 1], [TakeFirstNElements<T, N>] followed by
    [RemoveFirstNElements<T, N>] is [T]: the two split the tuple at
    index [N]. *)
Theorem TakeFirst_RemoveFirst_split (A : Type) (T : list A) (N : nat) :
  1 <= N ->
  Tuple.TakeFirstNElements T N [] ++ Tuple.RemoveFirstNElements T N [] [] = T.
Proof.
  intros HN. rewrite TakeFirstNElements_firstn, RemoveFirstNElements_skipn by exact HN.
  apply firstn_skipn.
Qed.

Lemma TakeFirst_RemoveFirst_split_witness :
  1 <= 2 /\
  Tuple.TakeFirstNElements [1; 2; 3] 2 [] ++
  Tuple.RemoveFirstNElements [1; 2; 3] 2 [] [] = [1; 2; 3].
Proof.
  split; [lia | apply (@TakeFirst_RemoveFirst_split nat [1; 2; 3] 2); lia].
Defined.

(** X17. [CreateTupleOfLength<T, N>] evaluates, in [N + 1] steps, to the
    tuple of [N] copies of [T]; more steps change nothing. *)
Theorem CreateTupleOfLength_repeats (A : Type) (x : A) (N fuel : nat) :
  N < fuel ->
  Tuple.CreateTupleOfLength fuel x N [] = Some (repeat x N).
Proof.
  intros Hf. rewrite CreateTupleOfLength_enough by (simpl; lia).
  simpl length. now rewrite Nat.sub_0_r, app_nil_r.
Qed.

Lemma CreateTupleOfLength_repeats_witness :
  3 < 4 /\ Tuple.CreateTupleOfLength 4 true 3 [] = Some (repeat true 3).
Proof.
  split; [lia | apply (@CreateTupleOfLength_repeats bool true 3 4); lia].
Defined.

(** X18. [CreateTupleOfLength<T, N, Result>] with a [Result] that is
    already longer than [N] never evaluates: the length test fails at
    every step, whatever the number of steps. *)
Theorem CreateTupleOfLength_never_returns (A : Type) (x : A) (N : nat)
  (Result : list A) :
  N < length Result ->
  forall fuel, Tuple.CreateTupleOfLength fuel x N Result = None.
Proof. intros Hlt fuel. now apply CreateTupleOfLength_overlong. Qed.

Lemma CreateTupleOfLength_never_returns_witness :
  1 < length [true; true] /\
  forall fuel, Tuple.CreateTupleOfLength fuel true 1 [true; true] = None.
Proof.
  split; [simpl; lia |
          apply (@CreateTupleOfLength_never_returns bool true 1 [true; true]);
          simpl; lia].
Defined.

(** X19. For [start >= 1], [SliceTuple<T, start, end>] has
    [min(end, length of T) - start] elements: it is empty when [end] is
    not above [start] or [start] is not below the length of [T]. *)
Theorem SliceTuple_length (A : Type) (T : list A) (start end_ : nat) :
  1 <= start ->
  length (Tuple.SliceTuple T start end_) = Nat.min end_ (length T) - start.
Proof.
  intros Hs. unfold Tuple.SliceTuple.
  rewrite !RemoveFirstNElements_skipn by exact Hs.
  rewrite !TakeFirstNElements_firstn.
  rewrite length_firstn, !length_skipn, length_firstn. lia.
Qed.

Lemma SliceTuple_length_witness :
  1 <= 2 /\
  length (Tuple.SliceTuple [1; 2; 3; 4; 5] 2 4) = Nat.min 4 (length [1; 2; 3; 4; 5]) - 2.
Proof.
  split; [lia | apply (@SliceTuple_length nat [1; 2; 3; 4; 5] 2 4); lia].
Defined.

Section FilterFacts.

Variable A : Type.
Variable extends_ : A -> A -> bool.
Implicit Types (T : list A) (E : A).

Lemma IncludeFromTuple_filter T E :
  Tuple.IncludeFromTuple extends_ T E = filter (fun F => extends_ F E) T.
Proof.
  induction T as [|F R IH]; simpl; [reflexivity|].
  destruct (extends_ F E); now rewrite IH.
Qed.

Lemma ExcludeFromTuple_filter T E :
  Tuple.ExcludeFromTuple extends_ T E =
  filter (fun F => negb (extends_ F E)) T.
Proof.
  induction T as [|F R IH]; simpl; [reflexivity|].
  destruct (extends_ F E); simpl; now rewrite IH.
Qed.

End FilterFacts.

(** X20. [IncludeFromTuple<T, E>] and [ExcludeFromTuple<T, E>] split [T]
    in two: together they hold the elements of [T], each as often as [T]
    does; every element of the first extends [E] and no element of the
    second does. *)
Theorem Include_Exclude_partition (A : Type) (extends_ : A -> A -> bool)
  (T : list A) (E : A) :
  Permutation
    (Tuple.IncludeFromTuple extends_ T E ++ Tuple.ExcludeFromTuple extends_ T E)
    T /\
  Forall (fun F => extends_ F E = true) (Tuple.IncludeFromTuple extends_ T E) /\
  Forall (fun F => extends_ F E = false) (Tuple.ExcludeFromTuple extends_ T E).
Proof.
  split; [|split].
  - induction T as [|F R IH]; simpl; [constructor|].
    destruct (extends_ F E); simpl.
    + now constructor.
    + rewrite <- Permutation_middle. now constructor.
  - rewrite IncludeFromTuple_filter. apply Forall_forall.
    intros F HF. now apply filter_In in HF.
  - rewrite ExcludeFromTuple_filter. apply Forall_forall.
    intros F HF. apply filter_In in HF. now apply negb_true_iff.
Qed.

(** X21. The two filters compose as filters do: excluding [E] from what
    was included for [E], or including it from what was excluded, leaves
    the empty tuple, and each filter applied twice is the filter applied
    once. *)
Theorem Include_Exclude_compose (A : Type) (extends_ : A -> A -> bool)
  (T : list A) (E : A) :
  Tuple.ExcludeFromTuple extends_ (Tuple.IncludeFromTuple extends_ T E) E = [] /\
  Tuple.IncludeFromTuple extends_ (Tuple.ExcludeFromTuple extends_ T E) E = [] /\
  Tuple.ExcludeFromTuple extends_ (Tuple.ExcludeFromTuple extends_ T E) E =
    Tuple.ExcludeFromTuple extends_ T E /\
  Tuple.IncludeFromTuple extends_ (Tuple.IncludeFromTuple extends_ T E) E =
    Tuple.IncludeFromTuple extends_ T E.
Proof.
  repeat split; induction T as [|F R IH]; simpl; try reflexivity;
    destruct (extends_ F E) eqn:HF; simpl; rewrite ?HF; simpl;
    rewrite ?IH; reflexivity.
Qed.

(** ** Unions of string literals *)

Section UnionFacts.

Lemma union_over_flat_map (K B : Type) (U : list K) (F : K -> list B) :
  Union.union_over U (fun k (_ : In k U) => F k) = flat_map F U.
Proof.
  induction U as [|k U IH]; simpl; [reflexivity|]. now rewrite IH.
Qed.

(** One unfolding of [NoRepetition], as the source writes it. *)
Lemma NoRepetition_eq (U ResultT : list string) :
  Union.NoRepetition U ResultT =
  ResultT ::
  flat_map (fun k => Union.NoRepetition (Union.Exclude U k) (k :: ResultT)) U.
Proof.
  rewrite Union.NoRepetition_equation_1. now rewrite union_over_flat_map.
Qed.

Lemma In_Exclude (U : list string) (k x : string) :
  In x (Union.Exclude U k) <-> In x U /\ x <> k.
Proof.
  unfold Union.Exclude. rewrite filter_In, negb_true_iff, String.eqb_neq.
  reflexivity.
Qed.

Lemma NoRepetition_members_bounded (n : nat) :
  forall (U ResultT t : list string),
    length U <= n ->
    (In t (Union.NoRepetition U ResultT) <->
     exists p, t = rev p ++ ResultT /\ NoDup p /\ incl p U).
Proof.
  induction n as [|n IH]; intros U R t Hn; rewrite NoRepetition_eq.
  - destruct U as [|u U]; [|simpl in Hn; lia]. simpl. split.
    + intros [<-|[]]. exists []. repeat split; [constructor | apply incl_refl].
    + intros (p & -> & _ & Hp). left.
      destruct p as [|k p]; [reflexivity|]. destruct (Hp k (or_introl eq_refl)).
  - simpl. rewrite in_flat_map. split.
    + intros [<-|(k & Hk & Ht)].
      * exists []. repeat split; [constructor | intros x []].
      * apply IH in Ht;
          [|pose proof (Union.Exclude_shorter U k Hk); lia].
        destruct Ht as (p & -> & Hnd & Hp).
        exists (k :: p). split; [|split].
        -- simpl. now rewrite <- app_assoc.
        -- constructor; [|exact Hnd].
           intros Hin. apply Hp, In_Exclude in Hin. now destruct Hin.
        -- intros x [<-|Hx]; [exact Hk|]. now apply Hp, In_Exclude in Hx.
    + intros (p & -> & Hnd & Hp).
      destruct p as [|k p]; [now left|]. right.
      assert (Hk : In k U) by (apply Hp; now left).
      exists k. split; [exact Hk|].
      apply IH; [pose proof (Union.Exclude_shorter U k Hk); lia|].
      exists p. inversion Hnd as [|? ? Hnotin Hnd']; subst.
      split; [|split].
      * simpl. now rewrite <- app_assoc.
      * exact Hnd'.
      * intros x Hx. apply In_Exclude. split.
        -- apply Hp. now right.
        -- intros ->. contradiction.
Qed.

End UnionFacts.

(** X22. The members of [NoRepetition<U>] are exactly the tuples of
    members of [U] in which no member occurs twice, of every length and in
    every order (the empty tuple among them). *)
Theorem NoRepetition_members (U t : list string) :
  In t (Union.NoRepetition U []) <-> NoDup t /\ incl t U.
Proof.
  rewrite (@NoRepetition_members_bounded (length U)) by lia.
  split.
  - intros (p & -> & Hnd & Hp). rewrite app_nil_r. split.
    + now apply NoDup_rev.
    + intros x Hx. apply Hp. now apply in_rev.
  - intros [Hnd Hp]. exists (rev t). rewrite rev_involutive, app_nil_r.
    split; [reflexivity|]. split.
    + now apply NoDup_rev.
    + intros x Hx. apply Hp. now apply in_rev in Hx.
Qed.

(** ** More on the string utilities *)

Section StringFacts.

Lemma append_assoc (a b c : string) :
  append (append a b) c = append a (append b c).
Proof. induction a as [|x a IH]; simpl; [reflexivity | now rewrite IH]. Qed.

Lemma append_nil_r (a : string) : append a EmptyString = a.
Proof. induction a as [|x a IH]; simpl; [reflexivity | now rewrite IH]. Qed.

Lemma length_append (a b : string) :
  String.length (append a b) = String.length a + String.length b.
Proof. induction a as [|x a IH]; simpl; [reflexivity | now rewrite IH]. Qed.

Lemma Join_app (T1 T2 : list string) :
  Str.Join (T1 ++ T2) = append (Str.Join T1) (Str.Join T2).
Proof.
  induction T1 as [|Head Tail IH]; simpl; [reflexivity|].
  now rewrite IH, append_assoc.
Qed.

Lemma Split_append (S1 S2 : string) :
  Str.Split (append S1 S2) = Str.Split S1 ++ Str.Split S2.
Proof. induction S1 as [|C R IH]; simpl; [reflexivity | now rewrite IH]. Qed.

Lemma Split_length (S : string) : length (Str.Split S) = String.length S.
Proof. induction S as [|C R IH]; simpl; [reflexivity | now rewrite IH]. Qed.

Lemma Join_Split_id (S : string) : Str.Join (Str.Split S) = S.
Proof. induction S as [|C R IH]; simpl; [reflexivity | now rewrite IH]. Qed.

Lemma Split_single (S : string) :
  Forall (fun s => String.length s = 1) (Str.Split S).
Proof. induction S as [|C R IH]; simpl; constructor; auto. Qed.

Lemma Split_Join_flat (T : list string) :
  Str.Split (Str.Join T) = flat_map Str.Split T.
Proof.
  induction T as [|Head Tail IH]; simpl; [reflexivity|].
  now rewrite Split_append, IH.
Qed.

Lemma Split_of_single (s : string) :
  String.length s = 1 -> Str.Split s = [s].
Proof.
  destruct s as [|c [|d s]]; simpl; intros H; try discriminate. reflexivity.
Qed.

Lemma Split_Join_iff (T : list string) :
  Str.Split (Str.Join T) = T <-> Forall (fun s => String.length s = 1) T.
Proof.
  split.
  - intros <-. apply Split_single.
  - intros H. rewrite Split_Join_flat.
    induction H as [|s T Hs _ IH]; simpl; [reflexivity|].
    now rewrite (Split_of_single _ Hs), IH.
Qed.

Lemma Forall_prefix (B : Type) (P : B -> Prop) (n : nat) (l : list B) :
  Forall P l -> Forall P (firstn n l).
Proof.
  intros H. revert n. induction H as [|x l Hx _ IH]; intros [|n]; simpl;
    constructor; auto.
Qed.

Lemma CutFirstChars_firstn (S : string) (N : nat) :
  Str.CutFirstChars S N = Str.Join (firstn N (Str.Split S)).
Proof. unfold Str.CutFirstChars. now rewrite TakeFirstNElements_firstn. Qed.

Lemma Split_CutFirstChars (S : string) (N : nat) :
  Str.Split (Str.CutFirstChars S N) = firstn N (Str.Split S).
Proof.
  rewrite CutFirstChars_firstn. apply Split_Join_iff.
  apply Forall_prefix, Split_single.
Qed.

Lemma CutFirstChars_split (S : string) (N : nat) :
  append (Str.CutFirstChars S N) (Str.Join (skipn N (Str.Split S))) = S.
Proof.
  rewrite CutFirstChars_firstn, <- Join_app, firstn_skipn.
  apply Join_Split_id.
Qed.

Lemma CutFirstChars_length (S : string) (N : nat) :
  String.length (Str.CutFirstChars S N) = Nat.min N (String.length S).
Proof.
  rewrite <- !Split_length, Split_CutFirstChars. apply length_firstn.
Qed.

Lemma CutFirstChars_twice (S : string) (N M : nat) :
  Str.CutFirstChars (Str.CutFirstChars S N) M =
  Str.CutFirstChars S (Nat.min M N).
Proof.
  rewrite (CutFirstChars_firstn (Str.CutFirstChars S N)), Split_CutFirstChars.
  rewrite firstn_firstn. symmetry. apply CutFirstChars_firstn.
Qed.

End StringFacts.

(** X23. [Split] and [Join] respect concatenation, and [Split<S>] has as
    many elements as [S] has characters. *)
Theorem Split_Join_concatenation (S1 S2 : string) (T1 T2 : list string) :
  Str.Split (append S1 S2) = Str.Split S1 ++ Str.Split S2 /\
  Str.Join (T1 ++ T2) = append (Str.Join T1) (Str.Join T2) /\
  length (Str.Split S1) = String.length S1.
Proof.
  split; [apply Split_append|]. split; [apply Join_app | apply Split_length].
Qed.

(** X24. The round trip the other way: [Split<Join<T>>] is the
    concatenation of the [Split]s of the elements of [T], and it is [T]
    itself exactly when every element of [T] is one character long. *)
Theorem Split_Join (T : list string) :
  Str.Split (Str.Join T) = flat_map Str.Split T /\
  (Str.Split (Str.Join T) = T <->
   Forall (fun s => String.length s = 1) T).
Proof. split; [apply Split_Join_flat | apply Split_Join_iff]. Qed.

(** X25. [CutFirstChars<S, N>] is a prefix of [S] of length
    [min(N, length of S)], and cutting twice is cutting once at the smaller
    count. *)
Theorem CutFirstChars_composes (S : string) (N M : nat) :
  append (Str.CutFirstChars S N) (Str.Join (skipn N (Str.Split S))) = S /\
  String.length (Str.CutFirstChars S N) = Nat.min N (String.length S) /\
  Str.CutFirstChars (Str.CutFirstChars S N) M =
    Str.CutFirstChars S (Nat.min M N).
Proof.
  split; [apply CutFirstChars_split|].
  split; [apply CutFirstChars_length | apply CutFirstChars_twice].
Qed.
